(** * tmplmgr: a caching layer over html/template

    Shallow embedding of [tmplmgr.go].  The package keeps, per [Template]
    value, a base file, a function map, a list of block globs, a dirty flag, the
    compiled base and a cache of per-call compositions keyed by the joined glob
    list.  The templating engine itself (html/template, path/filepath, fmt) is
    not part of the package: it is taken as an interface, [Engine], and every
    result below holds for every implementation of that interface.

    Conventions of the embedding:
    - a [*template.Template] is an [option] of an engine handle, [None] being
      the nil pointer;
    - a Go [(value, error)] pair is a [result];
    - a function that can die on a nil pointer returns an [outcome];
    - the engine's methods mutate their receiver; a method is modelled as a
      function returning the receiver's new value, and the caller stores it
      back where the pointer came from.  Handles are values: a clone and the
      handle it was cloned from share nothing, as html/template documents;
    - the engine reads the file system when it parses; the file system at the
      time of a call is an argument, [fs], of the call;
    - [compile_lock] and the [log.Printf] trace lines have no effect on the
      values computed by a single call and are left out. *)

From Stdlib Require Import String Ascii Bool List.
From stdpp Require Import base option list strings gmap.

Local Open Scope string_scope.

(** ** Results of fallible calls *)

Inductive result (E A : Type) : Type :=
  | Ok (a : A)
  | Err (e : E).
Arguments Ok {E A} a.
Arguments Err {E A} e.

Inductive outcome (A : Type) : Type :=
  | Returned (a : A)
  | NilDereference.
Arguments Returned {A} a.
Arguments NilDereference {A}.

(** ** Modes *)

Definition Mode := bool.
Definition Development : Mode := true.
Definition Production : Mode := false.

(** The package-level variable [compile_mode] and its setter. *)
Record Package := { compile_mode : Mode }.

Definition package_init : Package := {| compile_mode := Production |}.

Definition CompileMode (mode : Mode) (p : Package) : Package :=
  {| compile_mode := mode |}.

(** ** strings.Join *)

Fixpoint Join (elems : list string) (sep : string) : string :=
  match elems with
  | [] => ""
  | e :: rest =>
      match rest with
      | [] => e
      | _ :: _ => e +:+ sep +:+ Join rest sep
      end
  end.

(** ** The templating engine, as the package uses it *)

Class Engine := {
  handle : Type;
  error : Type;
  panic_value : Type;
  callable : Type;
  writer : Type;
  context : Type;
  files : Type;
  filepath_Base : string -> string;
  fmt_Errorf_v : panic_value -> error;
  tmpl_New : string -> handle;
  tmpl_Delims : string -> string -> handle -> handle;
  tmpl_ParseFiles : files -> handle -> string -> result error handle;
  tmpl_Funcs : handle -> gmap string callable -> result panic_value handle;
  tmpl_ParseGlob : files -> option handle -> string -> result error handle;
  tmpl_Clone : handle -> result error handle;
  tmpl_Execute : handle -> writer -> context -> handle * writer * option error
}.

Section Manager.
Context {engine : Engine}.

Record Template := {
  t : option handle;
  dirty : bool;
  base : string;
  funcs : gmap string callable;
  blocks : list string;
  compiled : gmap string (option handle)
}.

Definition Parse (file : string) : Template :=
  {| t := None; dirty := false; base := file;
     funcs := ∅; blocks := []; compiled := ∅ |}.

Definition Blocks (globs : list string) (tm : Template) : Template :=
  {| t := t tm; dirty := true; base := base tm; funcs := funcs tm;
     blocks := blocks tm ++ globs; compiled := compiled tm |}.

Definition Call (name : string) (fnc : callable) (tm : Template) : Template :=
  {| t := t tm; dirty := true; base := base tm;
     funcs := <[name := fnc]> (funcs tm);
     blocks := blocks tm; compiled := compiled tm |}.

(** The loop [for _, glob := range globs { tmpl, err = tmpl.ParseGlob(glob) ... }]
    shared by [Compile] and [getCachedGlobs]. *)
Fixpoint range_ParseGlob (fs : files) (tmpl : option handle)
    (globs : list string) : result error (option handle) :=
  match globs with
  | [] => Ok tmpl
  | glob :: rest =>
      match tmpl_ParseGlob fs tmpl glob with
      | Err e => Err e
      | Ok tmpl' => range_ParseGlob fs (Some tmpl') rest
      end
  end.

Definition Compile (fs : files) (tm : Template) : Template * option error :=
  let tmpl := tmpl_New (filepath_Base (base tm)) in
  let tmpl := tmpl_Delims "{%" "%}" tmpl in
  match tmpl_ParseFiles fs tmpl (base tm) with
  | Err e => (tm, Some e)
  | Ok tmpl =>
      match tmpl_Funcs tmpl (funcs tm) with
      | Err v => (tm, Some (fmt_Errorf_v v))
      | Ok tmpl =>
          match range_ParseGlob fs (Some tmpl) (blocks tm) with
          | Err e => (tm, Some e)
          | Ok tmpl =>
              ({| t := tmpl; dirty := false; base := base tm;
                  funcs := funcs tm; blocks := blocks tm; compiled := ∅ |},
               None)
          end
      end
  end.

Definition store_compiled (key : string) (tmpl : option handle)
    (tm : Template) : Template :=
  {| t := t tm; dirty := dirty tm; base := base tm; funcs := funcs tm;
     blocks := blocks tm; compiled := <[key := tmpl]> (compiled tm) |}.

Definition store_t (tmpl : option handle) (tm : Template) : Template :=
  {| t := tmpl; dirty := dirty tm; base := base tm; funcs := funcs tm;
     blocks := blocks tm; compiled := compiled tm |}.

(** [tmpl, _ = t.t.Clone()] on a base that is not nil: the error is dropped
    and only the pointer is kept, nil when the clone failed. *)
Definition clone_or_nil (b : handle) : option handle :=
  match tmpl_Clone b with
  | Ok c => Some c
  | Err _ => None
  end.

(** The part of [getCachedGlobs] after the cache test: clone the base, parse
    the globs into the clone, store it. *)
Definition compose (fs : files) (tm : Template) (globs : list string)
    : outcome (Template * result error (option handle)) :=
  match t tm with
  | None => NilDereference
  | Some b =>
      match range_ParseGlob fs (clone_or_nil b) globs with
      | Err e => Returned (tm, Err e)
      | Ok tmpl => Returned (store_compiled (Join globs ",") tmpl tm, Ok tmpl)
      end
  end.

Definition getCachedGlobs (pkg : Package) (fs : files) (tm : Template)
    (globs : list string) : outcome (Template * result error (option handle)) :=
  let key := Join globs "," in
  match compiled tm !! key with
  | Some cached =>
      if Bool.eqb (compile_mode pkg) Production
      then Returned (tm, Ok cached)
      else compose fs tm globs
  | None => compose fs tm globs
  end.

(** [if t.dirty || compile_mode == Development { err = t.Compile() ... }] *)
Definition compile_if_needed (pkg : Package) (fs : files) (tm : Template)
    : Template * option error :=
  if dirty tm || Bool.eqb (compile_mode pkg) Development
  then Compile fs tm
  else (tm, None).

(** The part of [Execute] that runs under the read lock: pick the handle and
    run it.  The engine's [Execute] changes the handle it runs (the handle is
    escaped on first use), and the handle run is the object stored in the
    manager, so the changed handle is stored back. *)
Definition render (pkg : Package) (fs : files) (tm : Template)
    (w : writer) (ctx : context) (globs : list string)
    : outcome (Template * writer * option error) :=
  if Nat.ltb 0 (length globs)
  then
    match getCachedGlobs pkg fs tm globs with
    | NilDereference => NilDereference
    | Returned (tm', Err e) => Returned (tm', w, Some e)
    | Returned (_, Ok None) => NilDereference
    | Returned (tm', Ok (Some tmpl)) =>
        let '(tmpl', w', err) := tmpl_Execute tmpl w ctx in
        Returned (store_compiled (Join globs ",") (Some tmpl') tm', w', err)
    end
  else
    match t tm with
    | None => NilDereference
    | Some tmpl =>
        let '(tmpl', w', err) := tmpl_Execute tmpl w ctx in
        Returned (store_t (Some tmpl') tm, w', err)
    end.

Definition Execute (pkg : Package) (fs : files) (tm : Template)
    (w : writer) (ctx : context) (globs : list string)
    : outcome (Template * writer * option error) :=
  match compile_if_needed pkg fs tm with
  | (tm', Some e) => Returned (tm', w, Some e)
  | (tm', None) => render pkg fs tm' w ctx globs
  end.

(** What [Compile] builds, as a function of the three fields it reads. *)
Definition build (fs : files) (file : string) (fm : gmap string callable)
    (globs : list string) : result error (option handle) :=
  let tmpl := tmpl_Delims "{%" "%}" (tmpl_New (filepath_Base file)) in
  match tmpl_ParseFiles fs tmpl file with
  | Err e => Err e
  | Ok tmpl =>
      match tmpl_Funcs tmpl fm with
      | Err v => Err (fmt_Errorf_v v)
      | Ok tmpl => range_ParseGlob fs (Some tmpl) globs
      end
  end.

(** The manager as a successful [Compile] leaves it. *)
Definition compiled_state (tm : Template) (tmpl : option handle) : Template :=
  {| t := tmpl; dirty := false; base := base tm; funcs := funcs tm;
     blocks := blocks tm; compiled := ∅ |}.

(** ** Managers a program can hold *)

(** The managers obtained from [Parse] through the exported methods.  A call
    of [Execute] that dies on a nil pointer has changed nothing before it
    dies, so a program that recovers from it holds the manager it had. *)
Inductive reachable : Template -> Prop :=
  | reachable_Parse (file : string) : reachable (Parse file)
  | reachable_Blocks (globs : list string) (tm : Template) :
      reachable tm -> reachable (Blocks globs tm)
  | reachable_Call (name : string) (fnc : callable) (tm : Template) :
      reachable tm -> reachable (Call name fnc tm)
  | reachable_Compile (fs : files) (tm : Template) :
      reachable tm -> reachable (fst (Compile fs tm))
  | reachable_Execute (pkg : Package) (fs : files) (tm : Template)
      (w : writer) (ctx : context) (globs : list string)
      (tm' : Template) (w' : writer) (err : option error) :
      reachable tm ->
      Execute pkg fs tm w ctx globs = Returned (tm', w', err) ->
      reachable tm'.

(** No cache entry is a nil pointer. *)
Definition cache_sound (tm : Template) : Prop :=
  forall (key : string) (p : option handle),
    compiled tm !! key = Some p -> is_Some p.

(** A manager without a compiled base has an empty cache, and if it is not
    dirty it is the manager [Parse] returns. *)
Definition manager_invariant (tm : Template) : Prop :=
  cache_sound tm /\
  (t tm = None -> compiled tm = ∅) /\
  (t tm = None -> dirty tm = false -> tm = Parse (base tm)).

(** What the caller of [Execute] sees: the writer and the error. *)
Definition observable (o : outcome (Template * writer * option error))
    : outcome (writer * option error) :=
  match o with
  | Returned (_, w, err) => Returned (w, err)
  | NilDereference => NilDereference
  end.

End Manager.

(** ** Separator-free patterns *)

Fixpoint has_comma (s : string) : bool :=
  match s with
  | EmptyString => false
  | String c s' => Ascii.eqb c "," || has_comma s'
  end.

Definition comma_free (s : string) : Prop := has_comma s = false.

(** ** A small engine

    A concrete implementation of [Engine], used to run the manager on inputs.
    A handle records its name, delimiters, the files and patterns parsed
    into it, the names of its functions, and whether it has been executed.  As
    in html/template, a callable is accepted when it returns one or two
    values, a handle cannot be cloned once it has been executed, and
    [ParseGlob] on a nil receiver starts a new template. *)

Module Toy.

Record tmpl := {
  name : string;
  delims : string * string;
  sources : list string;
  functions : list string;
  escaped : bool
}.

Definition New (n : string) : tmpl :=
  {| name := n; delims := ("{{", "}}"); sources := []; functions := [];
     escaped := false |}.

Definition Delims (l r : string) (h : tmpl) : tmpl :=
  {| name := name h; delims := (l, r); sources := sources h;
     functions := functions h; escaped := escaped h |}.

Definition add_source (src : string) (h : tmpl) : tmpl :=
  {| name := name h; delims := delims h; sources := sources h ++ [src];
     functions := functions h; escaped := escaped h |}.

(** The file system: the paths and patterns that resolve to a readable,
    well-formed template file. *)
Definition readable (fs : list string) (path : string) : bool :=
  existsb (String.eqb path) fs.

Definition ParseFiles (fs : list string) (h : tmpl) (file : string)
    : result string tmpl :=
  if readable fs file then Ok (add_source file h)
  else Err ("open " +:+ file +:+ ": no such file or directory").

Definition ParseGlob (fs : list string) (p : option tmpl) (glob : string)
    : result string tmpl :=
  if readable fs glob
  then Ok (add_source glob (match p with Some h => h | None => New glob end))
  else Err ("html/template: pattern matches no files: " +:+ glob).

(** A callable is given by the number of values it returns. *)
Definition goodFunc (results : nat) : bool :=
  Nat.eqb results 1 || Nat.eqb results 2.

Definition Funcs (h : tmpl) (fm : gmap string nat) : result string tmpl :=
  if forallb (fun kv => goodFunc (snd kv)) (map_to_list fm)
  then Ok {| name := name h; delims := delims h; sources := sources h;
             functions := functions h ++ map fst (map_to_list fm);
             escaped := escaped h |}
  else Err "can't install method/function".

Definition Clone (h : tmpl) : result string tmpl :=
  if escaped h then Err "html/template: cannot Clone after it has executed"
  else Ok h.

Definition Execute (h : tmpl) (w : list string) (ctx : string)
    : tmpl * list string * option string :=
  ({| name := name h; delims := delims h; sources := sources h;
      functions := functions h; escaped := true |},
   (w ++ [Join (sources h) "+" +:+ "(" +:+ ctx +:+ ")"])%list,
   None).

(** Last element of a slash-separated path. *)
Fixpoint last_element (path acc : string) : string :=
  match path with
  | EmptyString => acc
  | String c rest =>
      if Ascii.eqb c "/" then last_element rest ""
      else last_element rest (acc +:+ String c EmptyString)
  end.

#[export] Instance engine : Engine := {|
  handle := tmpl;
  error := string;
  panic_value := string;
  callable := nat;
  writer := list string;
  context := string;
  files := list string;
  filepath_Base := fun path => last_element path "";
  fmt_Errorf_v := fun v => v;
  tmpl_New := New;
  tmpl_Delims := Delims;
  tmpl_ParseFiles := ParseFiles;
  tmpl_Funcs := Funcs;
  tmpl_ParseGlob := ParseGlob;
  tmpl_Clone := Clone;
  tmpl_Execute := Execute
|}.

End Toy.

(** ** A session on the small engine

    A template directory, the same directory after its files were removed, and
    the managers a short session goes through. *)

Module Demo.

Definition fs : list string :=
  ["views/base.tmpl"; "views/blocks/*.tmpl"; "a/*.tmpl"; "b/*.tmpl"; "a"; "b"].

Definition gone : list string := [].

(** [Parse("views/base.tmpl")] *)
Definition fresh : @Template Toy.engine := Parse "views/base.tmpl".

(** ... then a successful [Compile] *)
Definition served : @Template Toy.engine :=
  fst (Compile (engine := Toy.engine) fs fresh).

(** ... then [Blocks("views/blocks/*.tmpl")] *)
Definition registered : @Template Toy.engine :=
  Blocks ["views/blocks/*.tmpl"] served.

(** [Parse] followed by the registration of a function with three results *)
Definition bad : @Template Toy.engine :=
  Call (engine := Toy.engine) "upper" 3 fresh.

(** [served] after one [Execute] without per-call globs *)
Definition rendered : @Template Toy.engine :=
  match Execute (engine := Toy.engine) package_init fs served [] "ctx" [] with
  | Returned (tm, _, _) => tm
  | NilDereference => served
  end.

(** [served] after one [Execute] with the per-call glob "a/*.tmpl" *)
Definition rendered_a : @Template Toy.engine :=
  match
    Execute (engine := Toy.engine) package_init fs served [] "ctx" ["a/*.tmpl"]
  with
  | Returned (tm, _, _) => tm
  | NilDereference => served
  end.

(** The base handle of [served] and of [rendered]. *)
Definition base_handle (escaped : bool) : Toy.tmpl :=
  {| Toy.name := "base.tmpl"; Toy.delims := ("{%", "%}");
     Toy.sources := ["views/base.tmpl"]; Toy.functions := [];
     Toy.escaped := escaped |}.

End Demo.

(** ** An engine that checks function names when it parses

    html/template resolves the functions a template text calls while the text
    is parsed: a text that calls a function the handle does not have yet is a
    parse error.  In this engine a file is a path with the names of the
    functions its text calls, and parsing fails on the first name that the
    receiving handle lacks.  Everything else is as in [Toy]. *)

Module Strict.

Definition tree := list (string * list string).

Definition calls_of (fs : tree) (path : string) : option (list string) :=
  match List.find (fun f => String.eqb (fst f) path) fs with
  | Some f => Some (snd f)
  | None => None
  end.

Definition defined (h : Toy.tmpl) (f : string) : bool :=
  existsb (String.eqb f) (Toy.functions h).

Definition parse (h : Toy.tmpl) (path : string) (calls : list string)
    : result string Toy.tmpl :=
  match List.find (fun f => negb (defined h f)) calls with
  | Some f => Err ("template: " +:+ path +:+ ": function " +:+ f
                   +:+ " not defined")
  | None => Ok (Toy.add_source path h)
  end.

Definition ParseFiles (fs : tree) (h : Toy.tmpl) (file : string)
    : result string Toy.tmpl :=
  match calls_of fs file with
  | None => Err ("open " +:+ file +:+ ": no such file or directory")
  | Some calls => parse h file calls
  end.

Definition ParseGlob (fs : tree) (p : option Toy.tmpl) (glob : string)
    : result string Toy.tmpl :=
  match calls_of fs glob with
  | None => Err ("html/template: pattern matches no files: " +:+ glob)
  | Some calls =>
      parse (match p with Some h => h | None => Toy.New glob end) glob calls
  end.

#[export] Instance engine : Engine := {|
  handle := Toy.tmpl;
  error := string;
  panic_value := string;
  callable := nat;
  writer := list string;
  context := string;
  files := tree;
  filepath_Base := fun path => Toy.last_element path "";
  fmt_Errorf_v := fun v => v;
  tmpl_New := Toy.New;
  tmpl_Delims := Toy.Delims;
  tmpl_ParseFiles := ParseFiles;
  tmpl_Funcs := Toy.Funcs;
  tmpl_ParseGlob := ParseGlob;
  tmpl_Clone := Toy.Clone;
  tmpl_Execute := Toy.Execute
|}.

(** A base file whose text calls [upper]. *)
Definition hello : tree := [("hello.tmpl", ["upper"])].

(** [Parse("hello.tmpl")] followed by [Call("upper", f)], [f] returning one
    value. *)
Definition greeter : @Template engine :=
  Call (engine := engine) "upper" 1 (Parse "hello.tmpl").

(** A base file that calls nothing and a block file that calls [upper]. *)
Definition layered : tree := [("base.tmpl", []); ("blocks.tmpl", ["upper"])].

End Strict.

(** ** The cache key *)

Lemma append_nil (s : string) : "" +:+ s = s.
Proof. reflexivity. Qed.

Lemma append_cons (c : ascii) (x s : string) :
  String c x +:+ s = String c (x +:+ s).
Proof. reflexivity. Qed.

Lemma append_comma_inj (x y s s' : string) :
  comma_free x -> comma_free y ->
  x +:+ "," +:+ s = y +:+ "," +:+ s' -> x = y /\ s = s'.
Proof.
  unfold comma_free. revert y.
  induction x as [|c x IH]; intros [|d y] Hx Hy Heq;
    rewrite ?append_nil, ?append_cons, ?append_nil in Heq; simpl in Hx, Hy.
  - injection Heq as ->. split; reflexivity.
  - injection Heq as <- _. discriminate.
  - injection Heq as -> _. discriminate.
  - injection Heq as -> Heq.
    apply orb_false_iff in Hx as [_ Hx]. apply orb_false_iff in Hy as [_ Hy].
    destruct (IH y Hx Hy Heq) as [-> ->]. split; reflexivity.
Qed.

Lemma Join_cons2 (e e' : string) (rest : list string) (sep : string) :
  Join (e :: e' :: rest) sep = e +:+ sep +:+ Join (e' :: rest) sep.
Proof. reflexivity. Qed.

Lemma Join_comma_inj (g1 g2 : list string) :
  Forall comma_free g1 -> Forall comma_free g2 ->
  length g1 = length g2 ->
  Join g1 "," = Join g2 "," -> g1 = g2.
Proof.
  revert g2. induction g1 as [|x g1 IH]; intros [|y g2] H1 H2 Hlen Heq;
    try discriminate; [reflexivity|].
  apply Forall_cons in H1 as [Hx H1]. apply Forall_cons in H2 as [Hy H2].
  destruct g1 as [|x' g1], g2 as [|y' g2]; try discriminate.
  - simpl in Heq. congruence.
  - rewrite !Join_cons2 in Heq.
    destruct (append_comma_inj _ _ _ _ Hx Hy Heq) as [-> Hrest].
    f_equal. apply IH; [assumption..| |exact Hrest].
    simpl in Hlen |- *. lia.
Qed.

(** ** Properties of the manager, for every engine *)

Section Properties.
Context {engine : Engine}.
Implicit Types (tm : Template) (fs : files) (pkg : Package).
Implicit Types (globs : list string) (w : writer) (ctx : context).

(** *** The compile loop *)

Lemma range_ParseGlob_present fs (p q : option handle) globs :
  range_ParseGlob fs p globs = Ok q -> is_Some p \/ globs <> [] -> is_Some q.
Proof.
  revert p. induction globs as [|glob rest IH]; intros p Hrun Hp; simpl in Hrun.
  - injection Hrun as <-. destruct Hp as [Hp|Hp]; [exact Hp | congruence].
  - destruct (tmpl_ParseGlob fs p glob) as [h|e]; [|discriminate].
    apply (IH (Some h)); [exact Hrun | left; eexists; reflexivity].
Qed.

Lemma Compile_build fs tm :
  Compile fs tm =
    match build fs (base tm) (funcs tm) (blocks tm) with
    | Err e => (tm, Some e)
    | Ok tmpl => (compiled_state tm tmpl, None)
    end.
Proof.
  unfold Compile, build.
  destruct (tmpl_ParseFiles _ _ _) as [h|e]; [|reflexivity].
  destruct (tmpl_Funcs _ _) as [h'|v]; [|reflexivity].
  destruct (range_ParseGlob _ _ _); reflexivity.
Qed.

Lemma build_present fs file fm globs tmpl :
  build fs file fm globs = Ok tmpl -> is_Some tmpl.
Proof.
  unfold build.
  destruct (tmpl_ParseFiles _ _ _) as [h|e]; [|discriminate].
  destruct (tmpl_Funcs _ _) as [h'|v]; [|discriminate].
  intros Hrun. eapply range_ParseGlob_present; [exact Hrun|].
  left; eexists; reflexivity.
Qed.

Lemma Compile_failure_state fs tm tm' e :
  Compile fs tm = (tm', Some e) -> tm' = tm.
Proof.
  rewrite Compile_build. destruct (build _ _ _ _); congruence.
Qed.

Lemma compile_if_needed_dirty pkg fs tm :
  dirty tm = true -> compile_if_needed pkg fs tm = Compile fs tm.
Proof. unfold compile_if_needed. intros ->. reflexivity. Qed.

Lemma compile_if_needed_clean pkg fs tm :
  dirty tm = false -> compile_mode pkg = Production ->
  compile_if_needed pkg fs tm = (tm, None).
Proof. unfold compile_if_needed. intros -> ->. reflexivity. Qed.

(** *** First use *)

(** C1 (the code departs from the claim).  [Parse] leaves [dirty] false and
    the compiled base nil, so the state just built is a state with
    [dirty = false] and no compiled base.  In the default Production mode
    [Execute] on that state does not call [Compile]: with or without per-call
    globs it goes on to use the nil base and dies on it. *)
Theorem Execute_after_Parse_nil_dereference fs file w ctx globs :
  dirty (Parse file) = false /\
  t (Parse file) = None /\
  compile_if_needed package_init fs (Parse file) = (Parse file, None) /\
  Execute package_init fs (Parse file) w ctx globs = NilDereference.
Proof.
  repeat split.
  unfold Execute, compile_if_needed, render; simpl.
  destruct globs as [|glob rest]; simpl; [reflexivity|].
  unfold getCachedGlobs; simpl. rewrite lookup_empty. reflexivity.
Qed.

(** *** Registration *)

(** C2 (the code departs from the claim).  [Blocks] and [Call] set [dirty],
    and [Execute] on the manager they return compiles first, in either mode.
    But [Compile] parses the base file into a handle made from the base name
    alone, before the function map is bound: the function just registered
    plays no part in that parse.  If the base file does not parse without
    functions, it does not parse after any [Call] either, and [Execute]
    returns that parse error with the manager and the writer untouched. *)
Theorem registered_function_unseen_by_base pkg fs tm w ctx globs
    (gs : list string) (name : string) (fnc : callable) (e : error) :
  tmpl_ParseFiles fs
    (tmpl_Delims "{%" "%}" (tmpl_New (filepath_Base (base tm)))) (base tm)
    = Err e ->
  dirty (Blocks gs tm) = true /\
  dirty (Call name fnc tm) = true /\
  compile_if_needed pkg fs (Call name fnc tm) = Compile fs (Call name fnc tm) /\
  Compile fs (Call name fnc tm) = (Call name fnc tm, Some e) /\
  Execute pkg fs (Call name fnc tm) w ctx globs
    = Returned (Call name fnc tm, w, Some e).
Proof.
  intros Hbase.
  assert (Hc : Compile fs (Call name fnc tm) = (Call name fnc tm, Some e)).
  { unfold Compile. simpl base. rewrite Hbase. reflexivity. }
  split; [reflexivity|]. split; [reflexivity|].
  split; [apply compile_if_needed_dirty; reflexivity|].
  split; [exact Hc|].
  unfold Execute. rewrite compile_if_needed_dirty by reflexivity.
  rewrite Hc. reflexivity.
Qed.

(** *** Compile *)

(** C3, amended.  A failing [Compile] returns its error and leaves the whole
    manager as it was: the compiled base and the cache are untouched and
    [dirty] keeps the value it had.  When [dirty] was true it is still true,
    and the next [Execute] compiles again. *)
Theorem Compile_failure_keeps_state fs tm tm' e :
  Compile fs tm = (tm', Some e) ->
  build fs (base tm) (funcs tm) (blocks tm) = Err e /\
  tm' = tm /\
  t tm' = t tm /\ compiled tm' = compiled tm /\ dirty tm' = dirty tm /\
  (dirty tm = true ->
   dirty tm' = true /\
   forall pkg fs', compile_if_needed pkg fs' tm' = Compile fs' tm').
Proof.
  intros Hc. pose proof (Compile_failure_state _ _ _ _ Hc) as ->.
  split.
  - rewrite Compile_build in Hc. destruct (build _ _ _ _); congruence.
  - repeat split; try assumption.
    intros. apply compile_if_needed_dirty; assumption.
Qed.

(** C4.  When the engine panics on the function map, [Compile] returns: its
    result is the unchanged manager and an error made from the panic value.
    After the failure, once [Call] has replaced the entry so that the engine
    accepts the map (and the block globs parse), [Compile] succeeds. *)
Theorem Compile_recovers_from_bad_function fs tm (h : handle)
    (v : panic_value) :
  tmpl_ParseFiles fs (tmpl_Delims "{%" "%}" (tmpl_New (filepath_Base (base tm))))
    (base tm) = Ok h ->
  tmpl_Funcs h (funcs tm) = Err v ->
  Compile fs tm = (tm, Some (fmt_Errorf_v v)) /\
  forall (name : string) (fnc : callable) (h' : handle) (tmpl : option handle),
    tmpl_Funcs h (<[name := fnc]> (funcs tm)) = Ok h' ->
    range_ParseGlob fs (Some h') (blocks tm) = Ok tmpl ->
    Compile fs (Call name fnc (fst (Compile fs tm))) =
      (compiled_state (Call name fnc tm) tmpl, None) /\
    is_Some tmpl.
Proof.
  intros Hbase Hbad.
  assert (Hfail : Compile fs tm = (tm, Some (fmt_Errorf_v v))).
  { unfold Compile. rewrite Hbase, Hbad. reflexivity. }
  split; [exact Hfail|].
  intros name fnc h' tmpl Hgood Hglobs. rewrite Hfail; simpl. split.
  - unfold Compile; simpl. rewrite Hbase, Hgood, Hglobs. reflexivity.
  - eapply range_ParseGlob_present; [exact Hglobs|].
    left; eexists; reflexivity.
Qed.

(** C5.  A [Compile] that returns no error has stored the handle it built,
    which is present, as the compiled base, has cleared [dirty] and has
    replaced the cache by the empty map; base file, functions and blocks are
    as before. *)
Theorem Compile_success_state fs tm tm' :
  Compile fs tm = (tm', None) ->
  exists tmpl : option handle,
    build fs (base tm) (funcs tm) (blocks tm) = Ok tmpl /\
    is_Some tmpl /\
    t tm' = tmpl /\ dirty tm' = false /\ compiled tm' = ∅ /\
    base tm' = base tm /\ funcs tm' = funcs tm /\ blocks tm' = blocks tm.
Proof.
  rewrite Compile_build.
  destruct (build fs (base tm) (funcs tm) (blocks tm)) as [tmpl|e] eqn:Hb;
    [|discriminate].
  intros [= <-]. exists tmpl. repeat split.
  eapply build_present; exact Hb.
Qed.

(** *** Per-call composition *)

Lemma compose_failure fs tm globs tm' e :
  compose fs tm globs = Returned (tm', Err e) -> tm' = tm.
Proof.
  unfold compose. destruct (t tm); [|discriminate].
  destruct (range_ParseGlob _ _ _); congruence.
Qed.

Lemma getCachedGlobs_failure pkg fs tm globs tm' e :
  getCachedGlobs pkg fs tm globs = Returned (tm', Err e) -> tm' = tm.
Proof.
  unfold getCachedGlobs.
  destruct (compiled tm !! Join globs ",");
    [destruct (Bool.eqb _ _); [congruence|]|]; apply compose_failure.
Qed.

Lemma compose_other_key fs tm globs tm' r key :
  compose fs tm globs = Returned (tm', r) ->
  key <> Join globs "," -> compiled tm' !! key = compiled tm !! key.
Proof.
  unfold compose. destruct (t tm); [|discriminate].
  destruct (range_ParseGlob _ _ _); intros [= <- <-] Hne; [|reflexivity].
  simpl. apply lookup_insert_ne. congruence.
Qed.

Lemma getCachedGlobs_other_key pkg fs tm globs tm' r key :
  getCachedGlobs pkg fs tm globs = Returned (tm', r) ->
  key <> Join globs "," -> compiled tm' !! key = compiled tm !! key.
Proof.
  unfold getCachedGlobs.
  destruct (compiled tm !! Join globs ",");
    [destruct (Bool.eqb _ _); [congruence|]|]; apply compose_other_key.
Qed.

Lemma compose_stores fs tm globs tm' tmpl :
  compose fs tm globs = Returned (tm', Ok tmpl) ->
  tm' = store_compiled (Join globs ",") tmpl tm.
Proof.
  unfold compose. destruct (t tm); [|discriminate].
  destruct (range_ParseGlob _ _ _); congruence.
Qed.

Lemma getCachedGlobs_cached pkg fs tm globs tm' tmpl :
  getCachedGlobs pkg fs tm globs = Returned (tm', Ok tmpl) ->
  compiled tm' !! Join globs "," = Some tmpl.
Proof.
  unfold getCachedGlobs.
  destruct (compiled tm !! Join globs ",") as [cached|] eqn:Hl;
    [destruct (Bool.eqb _ _); [congruence|]|];
    intros ->%compose_stores; apply lookup_insert_eq.
Qed.

(** C7.  When the per-call composition fails, [getCachedGlobs] hands the
    manager back exactly as it received it, and [Execute] returns the error
    with the writer untouched: nothing is rendered, and the manager is the one
    the compile step of this call left (the manager passed in, when no
    compile was due).  The failure is a failure of the glob loop run on the
    clone. *)
Theorem failed_composition_changes_nothing pkg fs tm w ctx globs
    (tm1 tm2 : Template) (e : error) :
  compile_if_needed pkg fs tm = (tm1, None) ->
  0 < length globs ->
  getCachedGlobs pkg fs tm1 globs = Returned (tm2, Err e) ->
  tm2 = tm1 /\
  (exists b, t tm1 = Some b /\
             range_ParseGlob fs (clone_or_nil b) globs = Err e) /\
  Execute pkg fs tm w ctx globs = Returned (tm1, w, Some e) /\
  (dirty tm = false -> compile_mode pkg = Production ->
   Execute pkg fs tm w ctx globs = Returned (tm, w, Some e)).
Proof.
  intros Hc Hlen Hg.
  pose proof (getCachedGlobs_failure _ _ _ _ _ _ Hg) as ->.
  assert (Hex : Execute pkg fs tm w ctx globs = Returned (tm1, w, Some e)).
  { unfold Execute. rewrite Hc. unfold render.
    destruct globs; [simpl in Hlen; lia|]. simpl Nat.ltb. cbv iota.
    rewrite Hg. reflexivity. }
  split; [reflexivity|]. split; [|split; [exact Hex|]].
  - revert Hg. unfold getCachedGlobs, compose.
    destruct (compiled tm1 !! Join globs ",");
      [destruct (Bool.eqb _ _); [congruence|]|];
      (destruct (t tm1) as [b|]; [|discriminate]);
      (destruct (range_ParseGlob _ _ _) eqn:Hr; [discriminate|]);
      intros [= <-]; exists b; split; reflexivity || assumption.
  - intros Hd Hm. rewrite compile_if_needed_clean in Hc by assumption.
    injection Hc as <-. exact Hex.
Qed.

(** C8.  In Development mode the cache is not consulted: the result is the
    fresh composition (clone of the base, then the globs) whatever the cache
    holds.  In Production mode an entry under the key is returned as it is and
    the manager is unchanged; without an entry the fresh composition is
    built.  In both modes a fresh composition that succeeds is stored under
    the key. *)
Theorem cache_is_read_only_in_Production pkg fs tm globs (b : handle) :
  t tm = Some b ->
  (compile_mode pkg = Development ->
   getCachedGlobs pkg fs tm globs =
     match range_ParseGlob fs (clone_or_nil b) globs with
     | Err e => Returned (tm, Err e)
     | Ok tmpl => Returned (store_compiled (Join globs ",") tmpl tm, Ok tmpl)
     end) /\
  (compile_mode pkg = Production ->
   getCachedGlobs pkg fs tm globs =
     match compiled tm !! Join globs "," with
     | Some cached => Returned (tm, Ok cached)
     | None =>
         match range_ParseGlob fs (clone_or_nil b) globs with
         | Err e => Returned (tm, Err e)
         | Ok tmpl =>
             Returned (store_compiled (Join globs ",") tmpl tm, Ok tmpl)
         end
     end) /\
  (forall tmpl,
     compiled (store_compiled (Join globs ",") tmpl tm) !! Join globs "," =
       Some tmpl).
Proof.
  intros Hb. unfold getCachedGlobs, compose. rewrite Hb.
  split; [|split].
  - intros ->. destruct (compiled tm !! Join globs ","); reflexivity.
  - intros ->. destruct (compiled tm !! Join globs ","); reflexivity.
  - intros tmpl. apply lookup_insert_eq.
Qed.

Lemma getCachedGlobs_dirty pkg fs tm globs tm' r :
  getCachedGlobs pkg fs tm globs = Returned (tm', r) -> dirty tm' = dirty tm.
Proof.
  unfold getCachedGlobs, compose.
  destruct (compiled tm !! Join globs ",");
    [destruct (Bool.eqb _ _); [congruence|]|];
    (destruct (t tm); [|discriminate]);
    destruct (range_ParseGlob _ _ _); intros [= <- <-]; reflexivity.
Qed.

Lemma getCachedGlobs_hit pkg fs tm globs cached :
  compile_mode pkg = Production ->
  compiled tm !! Join globs "," = Some cached ->
  getCachedGlobs pkg fs tm globs = Returned (tm, Ok cached).
Proof. unfold getCachedGlobs. intros -> ->. reflexivity. Qed.

(** C6, amended.  For glob lists whose patterns contain no comma, two lists
    that differ only in order have different keys, and a composition for one
    of them leaves the cache entry of the other as it was. *)
Theorem reordered_globs_have_distinct_entries pkg fs tm (g1 g2 : list string)
    (tm' : Template) (r : result error (option handle)) :
  Forall comma_free g1 ->
  Permutation g1 g2 -> g1 <> g2 ->
  Join g1 "," <> Join g2 "," /\
  (getCachedGlobs pkg fs tm g1 = Returned (tm', r) ->
   compiled tm' !! Join g2 "," = compiled tm !! Join g2 ",").
Proof.
  intros H1 Hperm Hne.
  assert (Hkeys : Join g1 "," <> Join g2 ",").
  { intros Heq. apply Hne. apply Join_comma_inj; try assumption.
    - eapply Permutation_Forall; eassumption.
    - apply Permutation_length; assumption. }
  split; [exact Hkeys|].
  intros Hg. eapply getCachedGlobs_other_key; [exact Hg|]. congruence.
Qed.

(** C9.  The key does not determine the glob list: the lists ["a,b"] and
    ["a"; "b"] are different and both have key "a,b".  In Production mode,
    once a composition for a list [g1] is in the cache, a call with any list
    [g2] of the same key gets that composition, and [Execute] with [g2] runs
    the handle built for [g1]. *)
Theorem joined_key_collision pkg fs tm (g1 g2 : list string)
    (tm' : Template) (tmpl : option handle) :
  compile_mode pkg = Production ->
  Join g1 "," = Join g2 "," ->
  getCachedGlobs pkg fs tm g1 = Returned (tm', Ok tmpl) ->
  (["a,b"] <> ["a"; "b"] /\
   Join ["a,b"] "," = "a,b" /\ Join ["a"; "b"] "," = "a,b") /\
  getCachedGlobs pkg fs tm' g2 = Returned (tm', Ok tmpl) /\
  (dirty tm = false -> 0 < length g2 ->
   forall w ctx,
     Execute pkg fs tm' w ctx g2 =
       match tmpl with
       | None => NilDereference
       | Some h =>
           let '(h', w', err) := tmpl_Execute h w ctx in
           Returned (store_compiled (Join g1 ",") (Some h') tm', w', err)
       end).
Proof.
  intros Hm Hkey Hg.
  assert (Hhit : getCachedGlobs pkg fs tm' g2 = Returned (tm', Ok tmpl)).
  { apply getCachedGlobs_hit; [exact Hm|]. rewrite <- Hkey.
    eapply getCachedGlobs_cached; exact Hg. }
  split; [repeat split; discriminate|]. split; [exact Hhit|].
  intros Hd Hlen w ctx. unfold Execute.
  rewrite compile_if_needed_clean;
    [|rewrite (getCachedGlobs_dirty _ _ _ _ _ _ Hg); exact Hd|exact Hm].
  unfold render. destruct g2 as [|glob rest]; [simpl in Hlen; lia|].
  simpl Nat.ltb. cbv iota. rewrite Hhit, <- Hkey. reflexivity.
Qed.

(** C10.  On a miss (Development mode, or no entry under the key) with a
    base whose clone fails, the clone's error does not come back: the first
    glob is parsed on a nil handle and the result of the call is the result
    of the glob loop started there.  [Execute] returns an error only if that
    loop produces one. *)
Theorem clone_error_is_dropped pkg fs (tm0 tm : Template) (glob : string)
    (rest : list string) (b : handle) (e : error) :
  t tm = Some b ->
  tmpl_Clone b = Err e ->
  compile_mode pkg = Development \/
    compiled tm !! Join (glob :: rest) "," = None ->
  getCachedGlobs pkg fs tm (glob :: rest) =
    match tmpl_ParseGlob fs None glob with
    | Err e' => Returned (tm, Err e')
    | Ok h =>
        match range_ParseGlob fs (Some h) rest with
        | Err e' => Returned (tm, Err e')
        | Ok tmpl =>
            Returned
              (store_compiled (Join (glob :: rest) ",") tmpl tm, Ok tmpl)
        end
    end /\
  (compile_if_needed pkg fs tm0 = (tm, None) ->
   forall w ctx,
     Execute pkg fs tm0 w ctx (glob :: rest) =
       match range_ParseGlob fs None (glob :: rest) with
       | Err e' => Returned (tm, w, Some e')
       | Ok None => NilDereference
       | Ok (Some h) =>
           let '(h', w', err) := tmpl_Execute h w ctx in
           Returned
             (store_compiled (Join (glob :: rest) ",") (Some h')
                (store_compiled (Join (glob :: rest) ",") (Some h) tm),
              w', err)
       end).
Proof.
  intros Hb Hclone Hmiss.
  assert (Hg : getCachedGlobs pkg fs tm (glob :: rest) =
               match range_ParseGlob fs None (glob :: rest) with
               | Err e' => Returned (tm, Err e')
               | Ok tmpl =>
                   Returned
                     (store_compiled (Join (glob :: rest) ",") tmpl tm,
                      Ok tmpl)
               end).
  { unfold getCachedGlobs, compose, clone_or_nil. rewrite Hb, Hclone.
    destruct Hmiss as [-> | ->]; [|reflexivity].
    destruct (compiled tm !! _); reflexivity. }
  split.
  - rewrite Hg. simpl. destruct (tmpl_ParseGlob fs None glob); reflexivity.
  - intros Hc w ctx. unfold Execute. rewrite Hc. unfold render.
    simpl Nat.ltb. cbv iota. rewrite Hg.
    destruct (range_ParseGlob fs None (glob :: rest)) as [[h|]|e'];
      reflexivity.
Qed.

End Properties.

(** ** The session, step by step *)

Example served_base : t Demo.served = Some (Demo.base_handle false).
Proof. reflexivity. Qed.

Example rendered_base : t Demo.rendered = Some (Demo.base_handle true).
Proof. reflexivity. Qed.

Example Join_example : Join ["a/*.tmpl"; "b/*.tmpl"] "," = "a/*.tmpl,b/*.tmpl".
Proof. reflexivity. Qed.

Example hello_world :
  Execute (engine := Toy.engine) package_init Demo.fs Demo.served [] "World" []
  = Returned (Demo.rendered, ["views/base.tmpl(World)"], None).
Proof. reflexivity. Qed.

(** After [Blocks] the next [Execute] renders the base with the new blocks. *)
Example registered_blocks_are_rendered :
  exists tm',
    Execute (engine := Toy.engine) package_init Demo.fs Demo.registered
      [] "World" []
    = Returned (tm', ["views/base.tmpl+views/blocks/*.tmpl(World)"], None)
    /\ dirty tm' = false.
Proof. eexists. split; reflexivity. Qed.

(** [Parse] then [Execute], in the default mode. *)
Example first_use :
  Execute (engine := Toy.engine) package_init Demo.fs Demo.fresh [] "World" []
  = NilDereference.
Proof. reflexivity. Qed.

(** ** The theorems at work on the session *)

(** Counterexample to C3 as stated.  [Demo.served] was compiled with
    success, so its [dirty] is false; the files are then removed and [Compile]
    is called again: it fails, and [dirty] is false afterwards. *)
Lemma Compile_failure_leaves_dirty_false :
  Compile (engine := Toy.engine) Demo.gone Demo.served
    = (Demo.served, Some "open views/base.tmpl: no such file or directory") /\
  dirty (fst (Compile (engine := Toy.engine) Demo.gone Demo.served)) <> true.
Proof. split; [reflexivity | discriminate]. Qed.

Lemma Compile_failure_keeps_state_witness :
  exists e,
    Compile (engine := Toy.engine) Demo.gone Demo.registered
      = (Demo.registered, Some e) /\
    t Demo.registered = Some (Demo.base_handle false) /\
    dirty Demo.registered = true /\
    forall pkg fs',
      compile_if_needed pkg fs' Demo.registered = Compile fs' Demo.registered.
Proof.
  exists "open views/base.tmpl: no such file or directory".
  assert (Hfail : Compile (engine := Toy.engine) Demo.gone Demo.registered
                  = (Demo.registered,
                     Some "open views/base.tmpl: no such file or directory"))
    by (vm_compute; reflexivity).
  destruct (Compile_failure_keeps_state _ _ _ _ Hfail)
    as (_ & _ & Hbase & _ & _ & Hretry).
  split; [exact Hfail|]. split; [exact Hbase|].
  apply Hretry. reflexivity.
Defined.

Lemma Compile_recovers_from_bad_function_witness :
  Compile (engine := Toy.engine) Demo.fs Demo.bad
    = (Demo.bad, Some "can't install method/function") /\
  Compile (engine := Toy.engine) Demo.fs
    (Call (engine := Toy.engine) "upper" 1
       (fst (Compile (engine := Toy.engine) Demo.fs Demo.bad)))
    = (compiled_state (Call (engine := Toy.engine) "upper" 1 Demo.bad)
         (Some {| Toy.name := "base.tmpl"; Toy.delims := ("{%", "%}");
                  Toy.sources := ["views/base.tmpl"];
                  Toy.functions := ["upper"]; Toy.escaped := false |}),
       None).
Proof.
  destruct (Compile_recovers_from_bad_function (engine := Toy.engine)
              Demo.fs Demo.bad (Demo.base_handle false)
              "can't install method/function")
    as [Hfail Hretry]; [vm_compute; reflexivity | vm_compute; reflexivity |].
  split; [exact Hfail|].
  eapply Hretry; vm_compute; reflexivity.
Defined.

Lemma Compile_success_state_witness :
  Compile (engine := Toy.engine) Demo.fs Demo.fresh = (Demo.served, None) /\
  t Demo.served = Some (Demo.base_handle false) /\
  dirty Demo.served = false /\
  compiled Demo.served = ∅.
Proof.
  assert (Hok : Compile (engine := Toy.engine) Demo.fs Demo.fresh
                = (Demo.served, None)) by (vm_compute; reflexivity).
  destruct (Compile_success_state _ _ _ Hok)
    as (tmpl & _ & _ & Ht & Hd & Hc & _).
  split; [exact Hok|]. split; [reflexivity|]. split; [exact Hd | exact Hc].
Defined.

(** Counterexample to C6 as stated: two lists that differ only in order and
    have the same key. *)
Lemma reordered_globs_same_key :
  Permutation ["a"; "a,a"] ["a,a"; "a"] /\
  ["a"; "a,a"] <> ["a,a"; "a"] /\
  Join ["a"; "a,a"] "," = Join ["a,a"; "a"] ",".
Proof.
  split; [apply perm_swap|]. split; [discriminate | reflexivity].
Qed.

Lemma reordered_globs_have_distinct_entries_witness :
  Join ["a/*.tmpl"; "b/*.tmpl"] "," <> Join ["b/*.tmpl"; "a/*.tmpl"] "," /\
  exists tm' tmpl,
    getCachedGlobs (engine := Toy.engine) package_init Demo.fs Demo.served
      ["a/*.tmpl"; "b/*.tmpl"] = Returned (tm', Ok tmpl) /\
    compiled tm' !! "a/*.tmpl,b/*.tmpl" = Some tmpl /\
    compiled tm' !! "b/*.tmpl,a/*.tmpl" = None.
Proof.
  assert (Hfree : Forall comma_free ["a/*.tmpl"; "b/*.tmpl"])
    by (repeat constructor).
  assert (Hperm : Permutation ["a/*.tmpl"; "b/*.tmpl"] ["b/*.tmpl"; "a/*.tmpl"])
    by apply perm_swap.
  assert (Hne : ["a/*.tmpl"; "b/*.tmpl"] <> ["b/*.tmpl"; "a/*.tmpl"])
    by discriminate.
  pose (h := {| Toy.name := "base.tmpl"; Toy.delims := ("{%", "%}");
                Toy.sources := ["views/base.tmpl"; "a/*.tmpl"; "b/*.tmpl"];
                Toy.functions := []; Toy.escaped := false |}).
  assert (Hrun : getCachedGlobs (engine := Toy.engine) package_init Demo.fs
                   Demo.served ["a/*.tmpl"; "b/*.tmpl"]
                 = Returned (store_compiled (engine := Toy.engine)
                               "a/*.tmpl,b/*.tmpl" (Some h) Demo.served,
                             Ok (Some h)))
    by (vm_compute; reflexivity).
  destruct (reordered_globs_have_distinct_entries (engine := Toy.engine)
              package_init Demo.fs Demo.served _ _
              (store_compiled (engine := Toy.engine)
                 "a/*.tmpl,b/*.tmpl" (Some h) Demo.served)
              (Ok (Some h)) Hfree Hperm Hne)
    as [Hkeys Hentry].
  split; [exact Hkeys|].
  eexists _, _. split; [exact Hrun|]. split; [reflexivity|].
  exact (Hentry Hrun).
Defined.

Lemma failed_composition_changes_nothing_witness :
  exists e,
    getCachedGlobs (engine := Toy.engine) package_init Demo.fs Demo.served
      ["missing/*.tmpl"] = Returned (Demo.served, Err e) /\
    Execute (engine := Toy.engine) package_init Demo.fs Demo.served
      [] "ctx" ["missing/*.tmpl"] = Returned (Demo.served, [], Some e).
Proof.
  exists "html/template: pattern matches no files: missing/*.tmpl".
  assert (Hfail : getCachedGlobs (engine := Toy.engine) package_init Demo.fs
                    Demo.served ["missing/*.tmpl"]
                  = Returned
                      (Demo.served,
                       Err "html/template: pattern matches no files: missing/*.tmpl"))
    by (vm_compute; reflexivity).
  split; [exact Hfail|].
  destruct (failed_composition_changes_nothing (engine := Toy.engine)
              package_init Demo.fs Demo.served [] "ctx" ["missing/*.tmpl"]
              Demo.served Demo.served
              "html/template: pattern matches no files: missing/*.tmpl")
    as (_ & _ & Hexec & _);
    [vm_compute; reflexivity | simpl; lia | exact Hfail | exact Hexec].
Defined.

(** The entry that [Demo.rendered_a] holds for "a/*.tmpl" has been executed;
    a fresh composition has not. *)
Lemma cache_is_read_only_in_Production_witness :
  compiled Demo.rendered_a !! "a/*.tmpl" =
    Some (Some {| Toy.name := "base.tmpl"; Toy.delims := ("{%", "%}");
                  Toy.sources := ["views/base.tmpl"; "a/*.tmpl"];
                  Toy.functions := []; Toy.escaped := true |}) /\
  getCachedGlobs (engine := Toy.engine) (CompileMode Production package_init)
    Demo.fs Demo.rendered_a ["a/*.tmpl"]
  = Returned
      (Demo.rendered_a,
       Ok (Some {| Toy.name := "base.tmpl"; Toy.delims := ("{%", "%}");
                   Toy.sources := ["views/base.tmpl"; "a/*.tmpl"];
                   Toy.functions := []; Toy.escaped := true |})) /\
  getCachedGlobs (engine := Toy.engine) (CompileMode Development package_init)
    Demo.fs Demo.rendered_a ["a/*.tmpl"]
  = Returned
      (store_compiled (engine := Toy.engine) "a/*.tmpl"
         (Some {| Toy.name := "base.tmpl"; Toy.delims := ("{%", "%}");
                  Toy.sources := ["views/base.tmpl"; "a/*.tmpl"];
                  Toy.functions := []; Toy.escaped := false |})
         Demo.rendered_a,
       Ok (Some {| Toy.name := "base.tmpl"; Toy.delims := ("{%", "%}");
                   Toy.sources := ["views/base.tmpl"; "a/*.tmpl"];
                   Toy.functions := []; Toy.escaped := false |})).
Proof.
  split; [reflexivity|].
  assert (Hb : t Demo.rendered_a = Some (Demo.base_handle false))
    by reflexivity.
  split.
  - destruct (cache_is_read_only_in_Production (engine := Toy.engine)
                (CompileMode Production package_init) Demo.fs Demo.rendered_a
                ["a/*.tmpl"] _ Hb) as (_ & Hprod & _).
    rewrite Hprod by reflexivity. reflexivity.
  - destruct (cache_is_read_only_in_Production (engine := Toy.engine)
                (CompileMode Development package_init) Demo.fs Demo.rendered_a
                ["a/*.tmpl"] _ Hb) as (Hdev & _ & _).
    rewrite Hdev by reflexivity. reflexivity.
Defined.

(** The pattern "a,b" matches no file of [Demo.fs], yet a call with ["a,b"]
    after a call with ["a"; "b"] is served. *)
Lemma joined_key_collision_witness :
  exists tm' h,
    getCachedGlobs (engine := Toy.engine) package_init Demo.fs Demo.served
      ["a"; "b"] = Returned (tm', Ok (Some h)) /\
    Toy.sources h = ["views/base.tmpl"; "a"; "b"] /\
    Toy.ParseGlob Demo.fs None "a,b"
      = Err "html/template: pattern matches no files: a,b" /\
    getCachedGlobs (engine := Toy.engine) package_init Demo.fs tm' ["a,b"]
      = Returned (tm', Ok (Some h)).
Proof.
  pose (h := {| Toy.name := "base.tmpl"; Toy.delims := ("{%", "%}");
                Toy.sources := ["views/base.tmpl"; "a"; "b"];
                Toy.functions := []; Toy.escaped := false |}).
  exists (store_compiled (engine := Toy.engine) "a,b" (Some h) Demo.served), h.
  assert (Hrun : getCachedGlobs (engine := Toy.engine) package_init Demo.fs
                   Demo.served ["a"; "b"]
                 = Returned (store_compiled (engine := Toy.engine)
                               "a,b" (Some h) Demo.served, Ok (Some h)))
    by (vm_compute; reflexivity).
  split; [exact Hrun|]. split; [reflexivity|]. split; [reflexivity|].
  destruct (joined_key_collision (engine := Toy.engine) package_init Demo.fs
              Demo.served ["a"; "b"] ["a,b"] _ _ eq_refl eq_refl Hrun)
    as (_ & Hhit & _).
  exact Hhit.
Defined.

(** [Demo.rendered] holds a base that has been executed, which the engine
    refuses to clone.  [Execute] with the glob "a/*.tmpl" returns no error,
    and what it runs is a template made of "a/*.tmpl" alone. *)
Lemma clone_error_is_dropped_witness :
  tmpl_Clone (Engine := Toy.engine) (Demo.base_handle true)
    = Err "html/template: cannot Clone after it has executed" /\
  exists tm',
    Execute (engine := Toy.engine) package_init Demo.fs Demo.rendered
      [] "ctx" ["a/*.tmpl"] = Returned (tm', ["a/*.tmpl(ctx)"], None).
Proof.
  split; [reflexivity|].
  destruct (clone_error_is_dropped (engine := Toy.engine) package_init Demo.fs
              Demo.rendered Demo.rendered "a/*.tmpl" [] (Demo.base_handle true)
              "html/template: cannot Clone after it has executed")
    as [_ Hexec];
    [reflexivity | reflexivity | right; reflexivity |].
  eexists. rewrite Hexec by reflexivity. vm_compute. reflexivity.
Defined.

(** ** Further properties of the manager *)

Section Further.
Context {engine : Engine}.
Implicit Types (tm : Template) (fs : files) (pkg : Package).
Implicit Types (globs : list string) (w : writer) (ctx : context).

(** *** The states of a manager *)

Lemma Compile_cases fs tm :
  (exists e, Compile fs tm = (tm, Some e)) \/
  (exists b : handle, Compile fs tm = (compiled_state tm (Some b), None)).
Proof.
  rewrite Compile_build.
  destruct (build fs (base tm) (funcs tm) (blocks tm)) as [tmpl|e] eqn:Hb.
  - right. destruct (build_present _ _ _ _ _ Hb) as [b ->]. eauto.
  - left. eauto.
Qed.

Lemma compose_fields fs tm globs tm' r :
  compose fs tm globs = Returned (tm', r) ->
  t tm' = t tm /\ dirty tm' = dirty tm /\ base tm' = base tm /\
  funcs tm' = funcs tm /\ blocks tm' = blocks tm.
Proof.
  unfold compose. destruct (t tm) as [b|] eqn:Hb; [|discriminate].
  destruct (range_ParseGlob _ _ _); intros [= <- <-]; simpl;
    repeat split; exact Hb.
Qed.

Lemma getCachedGlobs_fields pkg fs tm globs tm' r :
  getCachedGlobs pkg fs tm globs = Returned (tm', r) ->
  t tm' = t tm /\ dirty tm' = dirty tm /\ base tm' = base tm /\
  funcs tm' = funcs tm /\ blocks tm' = blocks tm.
Proof.
  unfold getCachedGlobs.
  destruct (compiled tm !! Join globs ",");
    [destruct (Bool.eqb _ _)|]; try apply compose_fields.
  intros [= <- <-]. repeat split.
Qed.

Lemma cache_sound_store key (h : handle) tm :
  cache_sound tm -> cache_sound (store_compiled key (Some h) tm).
Proof.
  intros Hs k p. simpl. rewrite lookup_insert.
  case_decide; [intros [= <-]; eexists; reflexivity | apply Hs].
Qed.

Lemma compose_present fs tm globs tm' p :
  cache_sound tm -> globs <> [] ->
  compose fs tm globs = Returned (tm', Ok p) ->
  exists h, p = Some h /\ cache_sound tm'.
Proof.
  intros Hs Hne. unfold compose. destruct (t tm) as [b|]; [|discriminate].
  destruct (range_ParseGlob _ _ _) as [q|e] eqn:Hr; intros [= <- <-].
  destruct (range_ParseGlob_present _ _ _ _ Hr (or_intror Hne)) as [h ->].
  exists h. split; [reflexivity|]. apply cache_sound_store, Hs.
Qed.

Lemma getCachedGlobs_present pkg fs tm globs tm' p :
  cache_sound tm -> globs <> [] ->
  getCachedGlobs pkg fs tm globs = Returned (tm', Ok p) ->
  exists h, p = Some h /\ cache_sound tm'.
Proof.
  intros Hs Hne. unfold getCachedGlobs.
  destruct (compiled tm !! Join globs ",") as [cached|] eqn:Hl;
    [destruct (Bool.eqb _ _)|]; try (apply compose_present; assumption).
  intros [= <- <-]. destruct (Hs _ _ Hl) as [h ->]. eauto.
Qed.

Lemma manager_invariant_Parse (file : string) : manager_invariant (Parse file).
Proof.
  split; [|split; reflexivity].
  intros key p. simpl. rewrite lookup_empty. discriminate.
Qed.

Lemma manager_invariant_compiled tm (b : handle) :
  manager_invariant (compiled_state tm (Some b)).
Proof.
  split; [|split; discriminate].
  intros key p. simpl. rewrite lookup_empty. discriminate.
Qed.

Lemma manager_invariant_Compile fs tm :
  manager_invariant tm -> manager_invariant (fst (Compile fs tm)).
Proof.
  intros Hinv. destruct (Compile_cases fs tm) as [[e ->]|[b ->]]; simpl.
  - exact Hinv.
  - apply manager_invariant_compiled.
Qed.

Lemma manager_invariant_present tm :
  cache_sound tm -> is_Some (t tm) -> manager_invariant tm.
Proof.
  intros Hs [b Hb]. split; [exact Hs|]. split; rewrite Hb; discriminate.
Qed.

Lemma render_Returned pkg fs tm w ctx globs tm' w' err :
  manager_invariant tm ->
  render pkg fs tm w ctx globs = Returned (tm', w', err) ->
  is_Some (t tm) /\ cache_sound tm' /\ is_Some (t tm').
Proof.
  intros (Hs & Hempty & _). unfold render.
  destruct globs as [|glob rest]; simpl Nat.ltb; cbv iota.
  - destruct (t tm) as [b|] eqn:Hb; [|discriminate].
    destruct (tmpl_Execute b w ctx) as [[b' w''] err'].
    intros [= <- <- <-]. simpl. split; [eexists; reflexivity|].
    split; [exact Hs | eexists; reflexivity].
  - assert (Hne : glob :: rest <> []) by discriminate.
    destruct (getCachedGlobs pkg fs tm (glob :: rest)) as [[tm2 [p|e]]|] eqn:Hg;
      [| |discriminate].
    + destruct (getCachedGlobs_present _ _ _ _ _ _ Hs Hne Hg)
        as (h & -> & Hs2).
      destruct (getCachedGlobs_fields _ _ _ _ _ _ Hg) as (Ht & _).
      destruct (tmpl_Execute h w ctx) as [[h' w''] err'].
      intros [= <- <- <-]. simpl. rewrite Ht.
      assert (Hp : is_Some (t tm)).
      { destruct (t tm) eqn:Hb; [eexists; reflexivity|].
        exfalso. revert Hg. unfold getCachedGlobs, compose.
        rewrite (Hempty eq_refl), lookup_empty, Hb. discriminate. }
      split; [exact Hp|]. split; [|exact Hp].
      apply cache_sound_store, Hs2.
    + intros [= <- <- <-].
      pose proof (getCachedGlobs_failure _ _ _ _ _ _ Hg) as ->.
      assert (Hp : is_Some (t tm)).
      { revert Hg. unfold getCachedGlobs, compose.
        destruct (t tm); [eexists; reflexivity|].
        rewrite (Hempty eq_refl), lookup_empty. discriminate. }
      split; [exact Hp|]. split; [exact Hs | exact Hp].
Qed.

Lemma render_safe pkg fs tm w ctx globs :
  cache_sound tm -> is_Some (t tm) ->
  render pkg fs tm w ctx globs <> NilDereference.
Proof.
  intros Hs [b Hb]. unfold render.
  destruct globs as [|glob rest]; simpl Nat.ltb; cbv iota.
  - rewrite Hb. destruct (tmpl_Execute b w ctx) as [[? ?] ?]. discriminate.
  - assert (Hne : glob :: rest <> []) by discriminate.
    destruct (getCachedGlobs pkg fs tm (glob :: rest)) as [[tm2 [p|e]]|] eqn:Hg.
    + destruct (getCachedGlobs_present _ _ _ _ _ _ Hs Hne Hg)
        as (h & -> & _).
      destruct (tmpl_Execute h w ctx) as [[? ?] ?]. discriminate.
    + discriminate.
    + exfalso. revert Hg. unfold getCachedGlobs, compose. rewrite Hb.
      destruct (compiled tm !! _); [destruct (Bool.eqb _ _)|];
        try discriminate; destruct (range_ParseGlob _ _ _); discriminate.
Qed.

Lemma reachable_manager_invariant tm : reachable tm -> manager_invariant tm.
Proof.
  induction 1 as [file|gs tm _ IH|name fnc tm _ IH|fs tm _ IH
                 |pkg fs tm w ctx globs tm' w' err _ IH Hex].
  - apply manager_invariant_Parse.
  - destruct IH as (Hs & Hempty & _).
    split; [exact Hs|]. split; [exact Hempty | discriminate].
  - destruct IH as (Hs & Hempty & _).
    split; [exact Hs|]. split; [exact Hempty | discriminate].
  - apply manager_invariant_Compile, IH.
  - revert Hex. unfold Execute, compile_if_needed.
    destruct (dirty tm || Bool.eqb (compile_mode pkg) Development).
    + destruct (Compile_cases fs tm) as [[e ->]|[b ->]].
      * intros [= <- <- <-]. exact IH.
      * intros Hr.
        destruct (render_Returned _ _ _ _ _ _ _ _ _
                    (manager_invariant_compiled tm b) Hr) as (_ & Hs & Hp).
        apply manager_invariant_present; assumption.
    + intros Hr. destruct (render_Returned _ _ _ _ _ _ _ _ _ IH Hr)
        as (_ & Hs & Hp).
      apply manager_invariant_present; assumption.
Qed.

(** X1.  Every manager a program can hold satisfies: no cache entry is nil;
    without a compiled base the cache is empty; and a manager that is not
    dirty has a compiled base, unless it is the manager [Parse] returned and
    nothing was done to it since. *)
Theorem reachable_manager_states tm :
  reachable tm ->
  (forall (key : string) (p : option handle),
     compiled tm !! key = Some p -> is_Some p) /\
  (t tm = None -> compiled tm = ∅) /\
  (dirty tm = false -> is_Some (t tm) \/ tm = Parse (base tm)).
Proof.
  intros Hr. destruct (reachable_manager_invariant _ Hr) as (Hs & He & Hp).
  split; [exact Hs|]. split; [exact He|].
  intros Hd. destruct (t tm) eqn:Ht; [left; eexists; reflexivity|].
  right. apply Hp; [reflexivity | exact Hd].
Qed.

(** X2.  On a manager a program can hold, [Execute] dies on a nil pointer in
    exactly one situation: the mode is Production and the manager is the one
    [Parse] returned, with nothing registered or compiled since. *)
Theorem Execute_nil_dereference_iff pkg fs tm w ctx globs :
  reachable tm ->
  (Execute pkg fs tm w ctx globs = NilDereference <->
   tm = Parse (base tm) /\ compile_mode pkg = Production).
Proof.
  intros Hr. pose proof (reachable_manager_invariant _ Hr) as Hinv.
  split.
  - unfold Execute, compile_if_needed.
    destruct (dirty tm) eqn:Hd; simpl.
    + destruct (Compile_cases fs tm) as [[e ->]|[b ->]]; [discriminate|].
      intros Hn. exfalso. revert Hn. apply render_safe.
      * apply manager_invariant_compiled.
      * eexists; reflexivity.
    + destruct (compile_mode pkg) eqn:Hm; simpl.
      * destruct (Compile_cases fs tm) as [[e ->]|[b ->]]; [discriminate|].
        intros Hn. exfalso. revert Hn. apply render_safe.
        -- apply manager_invariant_compiled.
        -- eexists; reflexivity.
      * intros Hn. split; [|reflexivity].
        destruct Hinv as (Hs & _ & Hp).
        destruct (t tm) eqn:Ht.
        -- exfalso. revert Hn. apply render_safe;
             [exact Hs | rewrite Ht; eexists; reflexivity].
        -- apply Hp; [reflexivity | exact Hd].
  - intros [-> Hm]. unfold Execute, compile_if_needed, render. simpl.
    rewrite Hm. simpl.
    destruct globs as [|glob rest]; simpl; [reflexivity|].
    unfold getCachedGlobs; simpl. rewrite lookup_empty. reflexivity.
Qed.

(** *** What a render depends on *)

(** X3.  When a compile is due, what the caller of [Execute] sees depends
    only on the base file, the functions and the blocks: neither the compiled
    base nor the cache nor the dirty flag the manager held matter.  A compile
    is due on every call once the mode is set to Development, and in either
    mode on dirty managers. *)
Theorem Execute_depends_on_configuration fs (tm1 tm2 : Template) w ctx globs :
  base tm1 = base tm2 -> funcs tm1 = funcs tm2 -> blocks tm1 = blocks tm2 ->
  (forall pkg,
     observable (Execute (CompileMode Development pkg) fs tm1 w ctx globs) =
     observable (Execute (CompileMode Development pkg) fs tm2 w ctx globs)) /\
  (forall pkg,
     dirty tm1 = true -> dirty tm2 = true ->
     observable (Execute pkg fs tm1 w ctx globs) =
     observable (Execute pkg fs tm2 w ctx globs)).
Proof.
  intros Hb Hf Hbl.
  assert (Hdue : forall pkg,
            compile_if_needed pkg fs tm1 = Compile fs tm1 ->
            compile_if_needed pkg fs tm2 = Compile fs tm2 ->
            observable (Execute pkg fs tm1 w ctx globs) =
            observable (Execute pkg fs tm2 w ctx globs)).
  { intros pkg H1 H2. unfold Execute. rewrite H1, H2, !Compile_build.
    unfold compiled_state. rewrite Hb, Hf, Hbl.
    destruct (build _ _ _ _); reflexivity. }
  split.
  - intros pkg. apply Hdue; unfold compile_if_needed; simpl;
      rewrite orb_true_r; reflexivity.
  - intros pkg H1 H2. apply Hdue; apply compile_if_needed_dirty; assumption.
Qed.

(** X4.  In Production mode a manager that is not dirty does not read the
    file system when no globs are given or when the key of the globs is in the
    cache: [Execute] gives the same result whatever the files have become. *)
Theorem Execute_cached_ignores_files pkg (fs1 fs2 : files) tm w ctx globs :
  compile_mode pkg = Production ->
  dirty tm = false ->
  globs = [] \/ is_Some (compiled tm !! Join globs ",") ->
  Execute pkg fs1 tm w ctx globs = Execute pkg fs2 tm w ctx globs.
Proof.
  intros Hm Hd Hc. unfold Execute.
  rewrite !compile_if_needed_clean by assumption.
  unfold render. destruct globs as [|glob rest]; [reflexivity|].
  destruct Hc as [Hc|[cached Hc]]; [discriminate|].
  simpl Nat.ltb. cbv iota.
  rewrite !(getCachedGlobs_hit _ _ _ _ _ Hm Hc). reflexivity.
Qed.

(** X10.  [Execute] never changes the base file, the functions or the
    blocks, and never makes a manager dirty.  If the manager is dirty after
    the call, the call did nothing: the compile failed, its error was
    returned, and manager and writer are as before. *)
Theorem Execute_keeps_configuration pkg fs tm w ctx globs
    (tm' : Template) (w' : writer) (err : option error) :
  Execute pkg fs tm w ctx globs = Returned (tm', w', err) ->
  base tm' = base tm /\ funcs tm' = funcs tm /\ blocks tm' = blocks tm /\
  (dirty tm' = true ->
   dirty tm = true /\ tm' = tm /\ w' = w /\
   exists e, err = Some e /\ Compile fs tm = (tm, Some e)).
Proof.
  assert (Hrender : forall tm1,
            render pkg fs tm1 w ctx globs = Returned (tm', w', err) ->
            base tm' = base tm1 /\ funcs tm' = funcs tm1 /\
            blocks tm' = blocks tm1 /\ dirty tm' = dirty tm1).
  { intros tm1. unfold render.
    destruct globs as [|glob rest]; simpl Nat.ltb; cbv iota.
    - destruct (t tm1) as [b|]; [|discriminate].
      destruct (tmpl_Execute b w ctx) as [[b' w''] err'].
      intros [= <- <- <-]. repeat split.
    - destruct (getCachedGlobs pkg fs tm1 (glob :: rest))
        as [[tm2 [[h|]|e]]|] eqn:Hg; try discriminate;
        destruct (getCachedGlobs_fields _ _ _ _ _ _ Hg)
          as (_ & Hd & Hb & Hf & Hbl).
      + destruct (tmpl_Execute h w ctx) as [[h' w''] err'].
        intros [= <- <- <-]. simpl. auto.
      + intros [= <- <- <-]. auto. }
  unfold Execute, compile_if_needed.
  destruct (dirty tm || Bool.eqb (compile_mode pkg) Development) eqn:Hdue.
  - destruct (Compile_cases fs tm) as [[e He]|[b Hb]].
    + rewrite He. intros [= <- <- <-].
      split; [reflexivity|]. split; [reflexivity|]. split; [reflexivity|].
      intros Hd. split; [exact Hd|]. split; [reflexivity|].
      split; [reflexivity|]. exists e. split; reflexivity.
    + rewrite Hb. intros Hr. destruct (Hrender _ Hr) as (H1 & H2 & H3 & H4).
      simpl in *.
      split; [exact H1|]. split; [exact H2|]. split; [exact H3|]. congruence.
  - intros Hr. destruct (Hrender _ Hr) as (H1 & H2 & H3 & H4).
    apply orb_false_iff in Hdue as [Hd _].
    split; [exact H1|]. split; [exact H2|]. split; [exact H3|]. congruence.
Qed.

(** *** Compile *)

Lemma range_ParseGlob_app fs (p : option handle) (g1 g2 : list string) :
  range_ParseGlob fs p (g1 ++ g2)%list =
    match range_ParseGlob fs p g1 with
    | Err e => Err e
    | Ok q => range_ParseGlob fs q g2
    end.
Proof.
  revert p. induction g1 as [|glob g1 IH]; intros p; simpl; [reflexivity|].
  destruct (tmpl_ParseGlob fs p glob); [apply IH | reflexivity].
Qed.

(** X5.  [Compile] reports the first block glob that fails: when the base
    parses, the functions are accepted and the globs before a failing one
    parse, the error returned is that glob's, whatever comes after it, and the
    manager is unchanged. *)
Theorem Compile_first_failing_glob fs tm (h h' : handle) (q : option handle)
    (g1 g2 : list string) (glob : string) (e : error) :
  blocks tm = (g1 ++ glob :: g2)%list ->
  tmpl_ParseFiles fs (tmpl_Delims "{%" "%}" (tmpl_New (filepath_Base (base tm))))
    (base tm) = Ok h ->
  tmpl_Funcs h (funcs tm) = Ok h' ->
  range_ParseGlob fs (Some h') g1 = Ok q ->
  tmpl_ParseGlob fs q glob = Err e ->
  Compile fs tm = (tm, Some e).
Proof.
  intros Hbl Hbase Hf Hg1 Hglob. unfold Compile.
  rewrite Hbase, Hf, Hbl, range_ParseGlob_app, Hg1. simpl.
  rewrite Hglob. reflexivity.
Qed.

(** X11.  Compiling twice in a row against the same files is the same as
    compiling once: same manager, same error. *)
Theorem Compile_idempotent fs tm :
  Compile fs (fst (Compile fs tm)) = Compile fs tm.
Proof.
  rewrite (Compile_build fs tm).
  destruct (build fs (base tm) (funcs tm) (blocks tm)) as [tmpl|e] eqn:Hb;
    simpl; rewrite Compile_build; simpl; rewrite Hb; reflexivity.
Qed.

(** X6.  Per-call globs are layered on the blocks.  On a manager just
    compiled, whose base the engine clones faithfully, the composition for a
    list of globs is what [Compile] would have built had the globs been
    registered after the blocks. *)
Theorem per_call_globs_extend_blocks pkg fs tm (tm' : Template) (b : handle)
    globs :
  Compile fs tm = (tm', None) ->
  t tm' = Some b ->
  tmpl_Clone b = Ok b ->
  getCachedGlobs pkg fs tm' globs =
    match build fs (base tm) (funcs tm) (blocks tm ++ globs) with
    | Err e => Returned (tm', Err e)
    | Ok tmpl => Returned (store_compiled (Join globs ",") tmpl tm', Ok tmpl)
    end.
Proof.
  rewrite Compile_build.
  destruct (build fs (base tm) (funcs tm) (blocks tm)) as [tmpl|e] eqn:Hb;
    [|discriminate].
  intros [= <-]. simpl. intros ->. intros Hc.
  unfold getCachedGlobs, compose, clone_or_nil. simpl.
  rewrite lookup_empty, Hc.
  revert Hb. unfold build.
  destruct (tmpl_ParseFiles _ _ _) as [h|e]; [|discriminate].
  destruct (tmpl_Funcs _ _) as [h'|v]; [|discriminate].
  intros Hb. rewrite range_ParseGlob_app, Hb. reflexivity.
Qed.

(** *** Registration *)

(** X7.  [Call] binds the name to the callable and leaves every other name
    as it was; registering a name again replaces the earlier callable; the
    order in which two different names are registered does not matter. *)
Theorem Call_registers tm (name : string) (f1 f2 : callable) :
  funcs (Call name f1 tm) !! name = Some f1 /\
  (forall name', name' <> name ->
     funcs (Call name f1 tm) !! name' = funcs tm !! name') /\
  Call name f2 (Call name f1 tm) = Call name f2 tm /\
  (forall name', name' <> name ->
     Call name' f2 (Call name f1 tm) = Call name f1 (Call name' f2 tm)).
Proof.
  split; [apply lookup_insert_eq|].
  split; [intros name' Hne; apply lookup_insert_ne; congruence|].
  unfold Call; simpl. split.
  - rewrite insert_insert_eq. reflexivity.
  - intros name' Hne. rewrite insert_insert_ne by congruence. reflexivity.
Qed.

(** X8.  [Blocks] appends: two calls are one call with the concatenated
    globs, so the globs are compiled in the order of registration.  [Blocks]
    touches the block list and the dirty flag and nothing else: the compiled
    base, the cache, the base file and the functions stay, and a call
    without globs returns the manager with [dirty] set and every other field
    as it was.  [Blocks] and [Call] can be chained in either order. *)
Theorem Blocks_appends tm (g1 g2 : list string) (name : string)
    (fnc : callable) :
  Blocks g2 (Blocks g1 tm) = Blocks (g1 ++ g2)%list tm /\
  Blocks g1 tm =
    {| t := t tm; dirty := true; base := base tm; funcs := funcs tm;
       blocks := blocks tm ++ g1; compiled := compiled tm |} /\
  Blocks [] tm =
    {| t := t tm; dirty := true; base := base tm; funcs := funcs tm;
       blocks := blocks tm; compiled := compiled tm |} /\
  Call name fnc (Blocks g1 tm) = Blocks g1 (Call name fnc tm).
Proof.
  unfold Blocks, Call; simpl.
  rewrite app_assoc, app_nil_r. repeat split.
Qed.

(** *** The cache *)

(** X12.  A composition stored for one list of globs survives a later
    composition for a list with another key: in Production mode a call with
    the first list then returns the handle stored for it, without reading
    the file system. *)
Theorem cache_entry_survives pkg1 pkg2 pkg3 (fs1 fs2 fs3 : files) tm
    (gA gB : list string) (tm1 tm2 : Template) (a : option handle)
    (r : result error (option handle)) :
  getCachedGlobs pkg1 fs1 tm gA = Returned (tm1, Ok a) ->
  getCachedGlobs pkg2 fs2 tm1 gB = Returned (tm2, r) ->
  Join gA "," <> Join gB "," ->
  compile_mode pkg3 = Production ->
  getCachedGlobs pkg3 fs3 tm2 gA = Returned (tm2, Ok a).
Proof.
  intros HA HB Hne Hm. apply getCachedGlobs_hit; [exact Hm|].
  rewrite (getCachedGlobs_other_key _ _ _ _ _ _ _ HB Hne).
  eapply getCachedGlobs_cached; exact HA.
Qed.

Lemma render_fields pkg fs tm w ctx globs tm' w' err :
  render pkg fs tm w ctx globs = Returned (tm', w', err) ->
  dirty tm' = dirty tm /\
  (err = None -> globs <> [] -> is_Some (compiled tm' !! Join globs ",")).
Proof.
  unfold render. destruct globs as [|glob rest]; simpl Nat.ltb; cbv iota.
  - destruct (t tm) as [b|]; [|discriminate].
    destruct (tmpl_Execute b w ctx) as [[b' w''] err'].
    intros [= <- <- <-]. split; [reflexivity | congruence].
  - destruct (getCachedGlobs pkg fs tm (glob :: rest))
      as [[tm2 [[h|]|e]]|] eqn:Hg; try discriminate;
      destruct (getCachedGlobs_fields _ _ _ _ _ _ Hg) as (_ & Hd & _).
    + destruct (tmpl_Execute h w ctx) as [[h' w''] err'].
      intros [= <- <- <-]. split; [exact Hd|].
      intros _ _. simpl compiled. rewrite lookup_insert_eq.
      eexists; reflexivity.
    + intros [= <- <- <-]. split; [exact Hd | discriminate].
Qed.

(** X13.  After an [Execute] that returned no error the manager is not
    dirty and, when globs were given, holds a cache entry under their key.
    In Production mode the next [Execute] with the same globs therefore
    reads no file: its result does not depend on the file system. *)
Theorem Execute_success_is_cached pkg fs tm w ctx globs
    (tm' : Template) (w' : writer) :
  Execute pkg fs tm w ctx globs = Returned (tm', w', None) ->
  dirty tm' = false /\
  (globs <> [] -> is_Some (compiled tm' !! Join globs ",")) /\
  (compile_mode pkg = Production ->
   forall (fs1 fs2 : files) w2 ctx2,
     Execute pkg fs1 tm' w2 ctx2 globs = Execute pkg fs2 tm' w2 ctx2 globs).
Proof.
  intros Hex.
  assert (Hfacts : dirty tm' = false /\
            (globs <> [] -> is_Some (compiled tm' !! Join globs ","))).
  { revert Hex. unfold Execute, compile_if_needed.
    destruct (dirty tm || Bool.eqb (compile_mode pkg) Development) eqn:Hdue.
    - destruct (Compile_cases fs tm) as [[e ->]|[b ->]]; [discriminate|].
      intros Hr. destruct (render_fields _ _ _ _ _ _ _ _ _ Hr) as [Hd Hk].
      split; [exact Hd | exact (Hk eq_refl)].
    - intros Hr. destruct (render_fields _ _ _ _ _ _ _ _ _ Hr) as [Hd Hk].
      apply orb_false_iff in Hdue as [Hdt _].
      split; [congruence | exact (Hk eq_refl)]. }
  destruct Hfacts as [Hd Hk]. split; [exact Hd|]. split; [exact Hk|].
  intros Hm fs1 fs2 w2 ctx2. unfold Execute.
  rewrite !compile_if_needed_clean by assumption.
  unfold render. destruct globs as [|glob rest]; [reflexivity|].
  destruct Hk as [cached Hc]; [discriminate|].
  simpl Nat.ltb. cbv iota.
  rewrite !(getCachedGlobs_hit _ _ _ _ _ Hm Hc). reflexivity.
Qed.

End Further.

(** *** The key of a list of patterns *)

Lemma has_comma_append (x s : string) : has_comma (x +:+ "," +:+ s) = true.
Proof.
  induction x as [|c x IH]; [reflexivity|].
  change (has_comma (String c (x +:+ "," +:+ s)) = true).
  simpl. rewrite IH. apply orb_true_r.
Qed.

(** X9.  On non-empty lists of patterns without a comma the key is
    injective: two such lists have the same key only if they are the same
    list. *)
Theorem Join_key_injective (g1 g2 : list string) :
  Forall comma_free g1 -> Forall comma_free g2 ->
  g1 <> [] -> g2 <> [] ->
  (Join g1 "," = Join g2 "," <-> g1 = g2).
Proof.
  intros H1 H2 Hn1 Hn2. split; [|intros ->; reflexivity].
  revert g2 H2 Hn2.
  induction g1 as [|x r1 IH]; [congruence|].
  intros [|y r2] H2 Hn2; [congruence|]. intros Heq.
  apply Forall_cons in H1 as [Hx H1]. apply Forall_cons in H2 as [Hy H2].
  destruct r1 as [|x' r1], r2 as [|y' r2].
  - simpl in Heq. congruence.
  - exfalso. rewrite Join_cons2 in Heq. simpl in Heq. subst x.
    unfold comma_free in Hx. rewrite has_comma_append in Hx. discriminate.
  - exfalso. rewrite Join_cons2 in Heq. simpl in Heq. subst y.
    unfold comma_free in Hy. rewrite has_comma_append in Hy. discriminate.
  - rewrite !Join_cons2 in Heq.
    destruct (append_comma_inj _ _ _ _ Hx Hy Heq) as [-> Hrest].
    f_equal. apply IH; [exact H1 | discriminate | exact H2 | discriminate
                       | exact Hrest].
Qed.

(** ** The further properties on the session *)

Lemma reachable_served : reachable (engine := Toy.engine) Demo.served.
Proof.
  apply (reachable_Compile (engine := Toy.engine) Demo.fs Demo.fresh),
    reachable_Parse.
Qed.

Lemma reachable_rendered_a : reachable Demo.rendered_a.
Proof.
  apply (reachable_Execute (engine := Toy.engine) package_init Demo.fs
           Demo.served [] "ctx" ["a/*.tmpl"] Demo.rendered_a
           ["views/base.tmpl+a/*.tmpl(ctx)"] None);
    [exact reachable_served | vm_compute; reflexivity].
Qed.

Lemma reachable_manager_states_witness :
  reachable Demo.rendered_a /\
  dirty Demo.rendered_a = false /\
  (is_Some (t Demo.rendered_a) \/
   Demo.rendered_a = Parse (base Demo.rendered_a)).
Proof.
  split; [exact reachable_rendered_a|]. split; [reflexivity|].
  destruct (reachable_manager_states (engine := Toy.engine) Demo.rendered_a
              reachable_rendered_a) as (_ & _ & Hbase).
  apply Hbase. reflexivity.
Defined.

Lemma Execute_nil_dereference_iff_witness :
  reachable Demo.fresh /\
  Execute (engine := Toy.engine) package_init Demo.fs Demo.fresh
    [] "ctx" ["a/*.tmpl"] = NilDereference.
Proof.
  assert (Hr : reachable Demo.fresh) by apply reachable_Parse.
  split; [exact Hr|].
  apply (Execute_nil_dereference_iff (engine := Toy.engine) package_init
           Demo.fs Demo.fresh [] "ctx" ["a/*.tmpl"] Hr).
  split; reflexivity.
Defined.

(** [Demo.registered] holds a compiled base; the same registration on the
    manager just parsed holds none.  Both are dirty, and [Execute] shows the
    caller the same thing. *)
Lemma Execute_depends_on_configuration_witness :
  t Demo.registered <> t (Blocks ["views/blocks/*.tmpl"] Demo.fresh) /\
  observable
    (Execute (engine := Toy.engine) package_init Demo.fs Demo.registered
       [] "ctx" ["a/*.tmpl"]) =
  observable
    (Execute (engine := Toy.engine) package_init Demo.fs
       (Blocks ["views/blocks/*.tmpl"] Demo.fresh) [] "ctx" ["a/*.tmpl"]).
Proof.
  split; [discriminate|].
  destruct (Execute_depends_on_configuration (engine := Toy.engine) Demo.fs
              Demo.registered (Blocks ["views/blocks/*.tmpl"] Demo.fresh)
              [] "ctx" ["a/*.tmpl"]) as [_ Hdirty];
    [reflexivity | reflexivity | reflexivity |].
  apply Hdirty; reflexivity.
Defined.

Lemma Execute_cached_ignores_files_witness :
  Execute (engine := Toy.engine) package_init Demo.fs Demo.rendered_a
    [] "ctx" ["a/*.tmpl"] =
  Execute (engine := Toy.engine) package_init Demo.gone Demo.rendered_a
    [] "ctx" ["a/*.tmpl"].
Proof.
  apply (Execute_cached_ignores_files (engine := Toy.engine));
    [reflexivity | reflexivity | right; vm_compute; eexists; reflexivity].
Defined.

Lemma Compile_first_failing_glob_witness :
  Compile (engine := Toy.engine) Demo.fs
    (Blocks ["a/*.tmpl"; "nope/*.tmpl"; "b/*.tmpl"] Demo.fresh)
  = (Blocks ["a/*.tmpl"; "nope/*.tmpl"; "b/*.tmpl"] Demo.fresh,
     Some "html/template: pattern matches no files: nope/*.tmpl").
Proof.
  apply (Compile_first_failing_glob (engine := Toy.engine) Demo.fs
           (Blocks ["a/*.tmpl"; "nope/*.tmpl"; "b/*.tmpl"] Demo.fresh)
           (Demo.base_handle false) (Demo.base_handle false)
           (Some (Toy.add_source "a/*.tmpl" (Demo.base_handle false)))
           ["a/*.tmpl"] ["b/*.tmpl"] "nope/*.tmpl");
    vm_compute; reflexivity.
Defined.

Lemma per_call_globs_extend_blocks_witness :
  exists tmpl,
    build (engine := Toy.engine) Demo.fs "views/base.tmpl" ∅ ["a/*.tmpl"]
      = Ok tmpl /\
    getCachedGlobs (engine := Toy.engine) package_init Demo.fs Demo.served
      ["a/*.tmpl"]
    = Returned (store_compiled (engine := Toy.engine) "a/*.tmpl" tmpl
                  Demo.served, Ok tmpl).
Proof.
  eexists. split; [vm_compute; reflexivity|].
  rewrite (per_call_globs_extend_blocks (engine := Toy.engine) package_init
             Demo.fs Demo.fresh Demo.served (Demo.base_handle false)
             ["a/*.tmpl"]); vm_compute; reflexivity.
Defined.

Lemma Call_registers_witness :
  funcs (Call (engine := Toy.engine) "upper" 1 Demo.bad) !! "upper" = Some 1 /\
  Call (engine := Toy.engine) "upper" 1 Demo.bad
    = Call (engine := Toy.engine) "upper" 1 Demo.fresh /\
  Call (engine := Toy.engine) "lower" 1 Demo.bad
    = Call (engine := Toy.engine) "upper" 3
        (Call (engine := Toy.engine) "lower" 1 Demo.fresh).
Proof.
  destruct (Call_registers (engine := Toy.engine) Demo.fresh "upper" 3 1)
    as (_ & _ & Hover & Hswap).
  split; [apply (Call_registers (engine := Toy.engine) Demo.bad "upper" 1 1)|].
  split; [exact Hover | apply Hswap; discriminate].
Defined.

Lemma Join_key_injective_witness :
  Join ["a/*.tmpl"; "b/*.tmpl"] "," <> Join ["a/*.tmpl"] ",".
Proof.
  intros Heq.
  apply (Join_key_injective ["a/*.tmpl"; "b/*.tmpl"] ["a/*.tmpl"]) in Heq;
    [discriminate | repeat constructor | repeat constructor
    | discriminate | discriminate].
Defined.

Lemma Execute_keeps_configuration_witness :
  Execute (engine := Toy.engine) package_init Demo.gone Demo.registered
    [] "ctx" []
  = Returned (Demo.registered, [],
              Some "open views/base.tmpl: no such file or directory") /\
  Compile (engine := Toy.engine) Demo.gone Demo.registered
  = (Demo.registered, Some "open views/base.tmpl: no such file or directory").
Proof.
  assert (Hex : Execute (engine := Toy.engine) package_init Demo.gone
                  Demo.registered [] "ctx" []
                = Returned (Demo.registered, [],
                            Some "open views/base.tmpl: no such file or directory"))
    by (vm_compute; reflexivity).
  split; [exact Hex|].
  destruct (Execute_keeps_configuration _ _ _ _ _ _ _ _ _ Hex)
    as (_ & _ & _ & Hstill).
  destruct (Hstill eq_refl) as (_ & _ & _ & e & [= <-] & Hc). exact Hc.
Defined.

Lemma cache_entry_survives_witness :
  exists tm2 a,
    compiled tm2 !! "b/*.tmpl" <> None /\
    getCachedGlobs (engine := Toy.engine) package_init Demo.gone tm2
      ["a/*.tmpl"] = Returned (tm2, Ok a).
Proof.
  eexists _, _. split;
    [|eapply (cache_entry_survives (engine := Toy.engine)
                package_init package_init package_init
                Demo.fs Demo.fs Demo.gone Demo.served
                ["a/*.tmpl"] ["b/*.tmpl"]);
      [vm_compute; reflexivity | vm_compute; reflexivity
      | discriminate | reflexivity]].
  vm_compute. discriminate.
Defined.

Lemma Execute_success_is_cached_witness :
  Execute (engine := Toy.engine) package_init Demo.fs Demo.served
    [] "ctx" ["a/*.tmpl"]
  = Returned (Demo.rendered_a, ["views/base.tmpl+a/*.tmpl(ctx)"], None) /\
  Execute (engine := Toy.engine) package_init Demo.fs Demo.rendered_a
    [] "again" ["a/*.tmpl"]
  = Execute (engine := Toy.engine) package_init Demo.gone Demo.rendered_a
      [] "again" ["a/*.tmpl"].
Proof.
  assert (Hex : Execute (engine := Toy.engine) package_init Demo.fs
                  Demo.served [] "ctx" ["a/*.tmpl"]
                = Returned (Demo.rendered_a,
                            ["views/base.tmpl+a/*.tmpl(ctx)"], None))
    by (vm_compute; reflexivity).
  split; [exact Hex|].
  destruct (Execute_success_is_cached _ _ _ _ _ _ _ _ Hex) as (_ & _ & Hnext).
  apply Hnext. reflexivity.
Defined.

(** ** What is rendered after a registration *)

Section Rendering.
Context {engine : Engine}.
Implicit Types (tm : Template) (fs : files) (pkg : Package).
Implicit Types (w : writer) (ctx : context).

(** X14.  A block glob registered with [Blocks] is in the next render.  If
    the manager's configuration builds a base [b] and the engine parses the
    new glob into [b] giving [h], then [Execute] without per-call globs on the
    manager [Blocks] returned runs [h]: what it writes and the error it
    returns are the engine's for [h], whatever base and cache the manager
    held, and [h] is the new compiled base. *)
Theorem Execute_renders_new_block pkg fs tm w ctx (g : string)
    (b h : handle) :
  build fs (base tm) (funcs tm) (blocks tm) = Ok (Some b) ->
  tmpl_ParseGlob fs (Some b) g = Ok h ->
  Execute pkg fs (Blocks [g] tm) w ctx [] =
    (let '(h', w', err) := tmpl_Execute h w ctx in
     Returned
       (store_t (Some h') (compiled_state (Blocks [g] tm) (Some h)), w', err)).
Proof.
  intros Hb Hg. unfold Execute.
  rewrite compile_if_needed_dirty by reflexivity.
  rewrite Compile_build. simpl base. simpl funcs. simpl blocks.
  assert (Hnew : build fs (base tm) (funcs tm) (blocks tm ++ [g])
                 = Ok (Some h)).
  { revert Hb. unfold build.
    destruct (tmpl_ParseFiles _ _ _) as [h0|e]; [|discriminate].
    destruct (tmpl_Funcs _ _) as [h1|v]; [|discriminate].
    intros Hb. rewrite range_ParseGlob_app, Hb. simpl. rewrite Hg.
    reflexivity. }
  rewrite Hnew. unfold render. simpl. reflexivity.
Qed.

(** X15.  A function registered with [Call] is bound before the block globs
    are parsed.  If the base file parses without functions, the engine
    accepts the function map with the new entry, and the block globs parse
    into the handle that has the map bound, then [Execute] without per-call
    globs on the manager [Call] returned runs the resulting handle. *)
Theorem Execute_binds_function_before_blocks pkg fs tm w ctx
    (name : string) (fnc : callable) (h0 h1 h2 : handle) :
  tmpl_ParseFiles fs
    (tmpl_Delims "{%" "%}" (tmpl_New (filepath_Base (base tm)))) (base tm)
    = Ok h0 ->
  tmpl_Funcs h0 (<[name := fnc]> (funcs tm)) = Ok h1 ->
  range_ParseGlob fs (Some h1) (blocks tm) = Ok (Some h2) ->
  Execute pkg fs (Call name fnc tm) w ctx [] =
    (let '(h', w', err) := tmpl_Execute h2 w ctx in
     Returned
       (store_t (Some h')
          (compiled_state (Call name fnc tm) (Some h2)), w', err)).
Proof.
  intros Hbase Hf Hg. unfold Execute.
  rewrite compile_if_needed_dirty by reflexivity.
  unfold Compile. simpl base. simpl funcs. simpl blocks.
  rewrite Hbase, Hf, Hg. unfold render. simpl. reflexivity.
Qed.

End Rendering.

(** The base file of [Strict.hello] calls [upper].  With [upper] bound first
    the engine parses it; [Compile] parses it first, so [Execute] after
    [Call("upper", f)] returns the parse error and writes nothing. *)
Lemma registered_function_unseen_by_base_witness :
  (exists h h',
     tmpl_Funcs (Engine := Strict.engine)
       (tmpl_Delims "{%" "%}" (tmpl_New "hello.tmpl")) {["upper" := 1]}
       = Ok h /\
     tmpl_ParseFiles (Engine := Strict.engine) Strict.hello h "hello.tmpl"
       = Ok h') /\
  Execute (engine := Strict.engine) package_init Strict.hello Strict.greeter
    [] "World" []
  = Returned
      (Strict.greeter, [],
       Some "template: hello.tmpl: function upper not defined").
Proof.
  split; [eexists _, _; split; vm_compute; reflexivity|].
  apply (registered_function_unseen_by_base (engine := Strict.engine)
           package_init Strict.hello (Parse "hello.tmpl") [] "World" []
           [] "upper" 1).
  vm_compute. reflexivity.
Defined.

Lemma Execute_renders_new_block_witness :
  Execute (engine := Toy.engine) package_init Demo.fs
    (Blocks ["views/blocks/*.tmpl"] Demo.rendered_a) [] "World" []
  = Returned
      (store_t (engine := Toy.engine)
         (Some {| Toy.name := "base.tmpl"; Toy.delims := ("{%", "%}");
                  Toy.sources := ["views/base.tmpl"; "views/blocks/*.tmpl"];
                  Toy.functions := []; Toy.escaped := true |})
         (compiled_state (Blocks ["views/blocks/*.tmpl"] Demo.rendered_a)
            (Some {| Toy.name := "base.tmpl"; Toy.delims := ("{%", "%}");
                     Toy.sources := ["views/base.tmpl"; "views/blocks/*.tmpl"];
                     Toy.functions := []; Toy.escaped := false |})),
       ["views/base.tmpl+views/blocks/*.tmpl(World)"], None).
Proof.
  rewrite (Execute_renders_new_block (engine := Toy.engine) package_init
             Demo.fs Demo.rendered_a [] "World" "views/blocks/*.tmpl"
             (Demo.base_handle false)
             {| Toy.name := "base.tmpl"; Toy.delims := ("{%", "%}");
                Toy.sources := ["views/base.tmpl"; "views/blocks/*.tmpl"];
                Toy.functions := []; Toy.escaped := false |});
    vm_compute; reflexivity.
Defined.

(** In [Strict.layered] the base file calls nothing and the block file calls
    [upper]: the block file parses, because [upper] is bound by then. *)
Lemma Execute_binds_function_before_blocks_witness :
  exists tm',
    Execute (engine := Strict.engine) package_init Strict.layered
      (Call (engine := Strict.engine) "upper" 1
         (Blocks ["blocks.tmpl"] (Parse "base.tmpl"))) [] "World" []
    = Returned (tm', ["base.tmpl+blocks.tmpl(World)"], None).
Proof.
  eexists.
  rewrite (Execute_binds_function_before_blocks (engine := Strict.engine)
             package_init Strict.layered
             (Blocks ["blocks.tmpl"] (Parse "base.tmpl")) [] "World"
             "upper" 1
             (Toy.add_source "base.tmpl"
                (Toy.Delims "{%" "%}" (Toy.New "base.tmpl")))
             {| Toy.name := "base.tmpl"; Toy.delims := ("{%", "%}");
                Toy.sources := ["base.tmpl"]; Toy.functions := ["upper"];
                Toy.escaped := false |}
             {| Toy.name := "base.tmpl"; Toy.delims := ("{%", "%}");
                Toy.sources := ["base.tmpl"; "blocks.tmpl"];
                Toy.functions := ["upper"]; Toy.escaped := false |});
    vm_compute; reflexivity.
Defined.
